(** * Verification of cpp-domain-filter (src/main.cpp)

    A shallow embedding of the classes [Domain] and [DomainChecker] and of
    the query loop of [main], followed by the properties of the
    repository's specification.

    Conventions of the embedding:
    - a [std::string] is a [string]; iteration over it goes through its
      list of characters ([chars]), reverse iteration ([rbegin]/[rend])
      through [rev];
    - [char] is the signed 8-bit type of the usual x86-64 ABI, compared
      through its integer value ([char_val]); the proofs use of this
      comparison only that it is a strict total order ([char_lt_irrefl],
      [char_lt_trans], [char_lt_total]);
    - the member functions of [DomainChecker] read and write the (mutable)
      member [forbidden_domains_]: they live in a state-and-error monad
      over the object, where the error stands for an iterator access out of
      the vector's range;
    - the algorithms of the C++ standard library that the code calls are
      written out in [Module Std]. *)

From Stdlib Require Import Ascii String.
From Stdlib Require Import List Bool Arith Lia ZArith NArith.
From Stdlib Require Import Sorted Permutation.
Import ListNotations.

Local Open Scope list_scope.

(** ** Characters and strings *)

Definition chars (s : string) : list ascii := list_ascii_of_string s.

(** Value of a [char] (signed, 8 bits, two's complement). *)
Definition char_val (c : ascii) : Z :=
  let n := Z.of_N (N_of_ascii c) in
  if (n <? 128)%Z then n else (n - 256)%Z.

(** [l < r] on [char]. *)
Definition char_lt (l r : ascii) : bool := (char_val l <? char_val r)%Z.

Definition dot : ascii := "."%char.

(** ** The standard algorithms used by the program *)

Module Std.

Section Algorithms.
Context {A : Type}.

(** [std::lexicographical_compare(first1, last1, first2, last2, comp)]:
    walk both ranges together; the first position where [comp] decides
    gives the answer; otherwise the range that ends first is the smaller. *)
Fixpoint lexicographical_compare (comp : A -> A -> bool) (r1 r2 : list A) : bool :=
  match r1, r2 with
  | x1 :: t1, x2 :: t2 =>
      if comp x1 x2 then true
      else if comp x2 x1 then false
      else lexicographical_compare comp t1 t2
  | [], _ :: _ => true
  | _, [] => false
  end.

(** The loop of [std::upper_bound(first, last, value)] with [operator<]
    as [lt]: [first] and [count] delimit the range still searched.  An
    access outside of the vector is an error ([None]), and so is a loop
    that has not ended when [fuel] runs out. *)
Fixpoint upper_bound_loop (lt : A -> A -> bool) (fuel : nat)
    (v : list A) (value : A) (first count : nat) : option nat :=
  match fuel with
  | O => None
  | S fuel' =>
      if count =? 0 then Some first
      else
        let step := count / 2 in
        let it := first + step in
        match nth_error v it with
        | None => None
        | Some e =>
            if negb (lt value e)
            then upper_bound_loop lt fuel' v value (it + 1) (count - (step + 1))
            else upper_bound_loop lt fuel' v value first step
        end
  end.

(** [std::upper_bound(v.begin(), v.end(), value)], as the index of the
    returned iterator.  [count] starts at [length v] and strictly
    decreases at each turn, hence the loop ends within the fuel given
    here (lemma [upper_bound_loop_spec]). *)
Definition upper_bound (lt : A -> A -> bool) (v : list A) (value : A) : option nat :=
  upper_bound_loop lt (S (length v)) v value 0 (length v).

(** [std::sort]: the elements in ascending order for [lt].  The contract
    of [std::sort] is that the result is a permutation of the input that
    is sorted; for the total order of this program there is exactly one
    such list (lemma [sort_unique] below), which this insertion sort
    computes. *)
Fixpoint insert (lt : A -> A -> bool) (x : A) (l : list A) : list A :=
  match l with
  | [] => [x]
  | y :: t => if lt y x then y :: insert lt x t else x :: l
  end.

Fixpoint sort (lt : A -> A -> bool) (l : list A) : list A :=
  match l with
  | [] => []
  | x :: t => insert lt x (sort lt t)
  end.

(** The loop of [std::unique(first, last, p)]: [result] is the last
    element kept so far; an element [x] for which [p result x] holds is
    skipped, any other one is kept and becomes [result].  The predicate
    of this program is symmetric but not transitive, so what matters is
    this loop, which compares with the element kept last, and not only the
    description by groups of equivalent elements. *)
Fixpoint unique_loop (p : A -> A -> bool) (result : A) (l : list A) : list A :=
  match l with
  | [] => []
  | x :: t =>
      if p result x then unique_loop p result t
      else x :: unique_loop p x t
  end.

(** [v.erase(std::unique(v.begin(), v.end(), p), v.end())]: the elements
    of the range [[begin, new_end)], which are the ones kept. *)
Definition unique (p : A -> A -> bool) (l : list A) : list A :=
  match l with
  | [] => []
  | x :: t => x :: unique_loop p x t
  end.

End Algorithms.

(** [std::string_view::ends_with(suffix)]: the last [size(suffix)]
    characters are compared with [suffix]. *)
Definition ends_with (s suffix : list ascii) : bool :=
  (length suffix <=? length s) &&
  (if list_eq_dec ascii_dec (skipn (length s - length suffix) s) suffix
   then true else false).

End Std.

(** ** class Domain *)

Record Domain : Type := mkDomain { domain_name_ : string }.

(** [Domain::Domain(std::string_view)] *)
Definition Domain_new (domain_name : string) : Domain :=
  mkDomain domain_name.

(** [Domain::operator==] *)
Definition Domain_eqb (d other : Domain) : bool :=
  String.eqb (domain_name_ d) (domain_name_ other).

(** The comparator of [Domain::operator<]:
    [(l == '.' || l < r) && (r != '.')]. *)
Definition comp (l r : ascii) : bool :=
  (Ascii.eqb l dot || char_lt l r) && negb (Ascii.eqb r dot).

(** [Domain::operator<] *)
Definition Domain_lt (d other : Domain) : bool :=
  Std.lexicographical_compare comp
    (rev (chars (domain_name_ d))) (rev (chars (domain_name_ other))).

(** [Domain::IsSubdomain] *)
Definition IsSubdomain (d other : Domain) : bool :=
  (length (chars (domain_name_ other)) <=? length (chars (domain_name_ d))) &&
  Std.ends_with (dot :: chars (domain_name_ d)) (dot :: chars (domain_name_ other)).

(** ** class DomainChecker *)

Record DomainChecker : Type := mkChecker { forbidden_domains_ : list Domain }.

(** Member functions: computations over the object that may fail. *)
Definition M (A : Type) : Type := DomainChecker -> option (A * DomainChecker).

Definition ret {A} (a : A) : M A := fun c => Some (a, c).

Definition bind {A B} (m : M A) (k : A -> M B) : M B :=
  fun c => match m c with
           | Some (a, c') => k a c'
           | None => None
           end.

Notation "x <- m ;; k" := (bind m (fun x => k))
  (at level 61, m at next level, right associativity).
Notation "m ;;; k" := (bind m (fun _ => k))
  (at level 61, right associativity).

(** Read and write of the member [forbidden_domains_]. *)
Definition get_forbidden : M (list Domain) :=
  fun c => Some (forbidden_domains_ c, c).

Definition set_forbidden (v : list Domain) : M unit :=
  fun _ => Some (tt, mkChecker v).

(** An access that is undefined when out of range. *)
Definition checked {A} (o : option A) : M A :=
  fun c => match o with Some a => Some (a, c) | None => None end.

(** The predicate handed to [std::unique]. *)
Definition redundant (lhs rhs : Domain) : bool :=
  IsSubdomain lhs rhs || IsSubdomain rhs lhs.

(** [DomainChecker::PrepareForbiddenDomains] *)
Definition PrepareForbiddenDomains : M unit :=
  v <- get_forbidden ;;
  set_forbidden (Std.sort Domain_lt v) ;;;
  v' <- get_forbidden ;;
  set_forbidden (Std.unique redundant v').

(** [DomainChecker::DomainChecker(begin, end)] *)
Definition DomainChecker_new (domains : list Domain) : option DomainChecker :=
  match PrepareForbiddenDomains (mkChecker domains) with
  | Some (_, c) => Some c
  | None => None
  end.

(** [DomainChecker::IsForbidden] *)
Definition IsForbidden (domain : Domain) : M bool :=
  v <- get_forbidden ;;
  find_domain <- checked (Std.upper_bound Domain_lt v domain) ;;
  if find_domain =? 0 then ret false
  else
    candidate <- checked (nth_error v (find_domain - 1)) ;;
    ret (IsSubdomain domain candidate).

(** ** main *)

Definition token (forbidden : bool) : string :=
  if forbidden then "Bad"%string else "Good"%string.

(** The loop of [main] over the test domains: one line of output for each
    of them, in order. *)
Fixpoint query_loop (test_domains : list Domain) : M (list string) :=
  match test_domains with
  | [] => ret []
  | domain :: rest =>
      b <- IsForbidden domain ;;
      out <- query_loop rest ;;
      ret (token b :: out)
  end.

(** [main], from the two sequences of names that [ReadDomains] delivers to
    the lines written to [std::cout]. *)
Definition main (forbidden_names test_names : list string) : option (list string) :=
  match DomainChecker_new (map Domain_new forbidden_names) with
  | None => None
  | Some checker =>
      match query_loop (map Domain_new test_names) checker with
      | Some (out, _) => Some out
      | None => None
      end
  end.

Definition names (l : list string) : list Domain := map Domain_new l.

(** ** Reading and printing domains *)

Definition newline : ascii := "010"%char.

(** An input stream over a buffer of characters, such as
    [std::istringstream] or [std::cin]: the characters not yet read, and
    whether the stream is [good()] (neither end of input nor a failure has
    been met). *)
Record istream : Type := mkIstream { rdbuf : list ascii; good : bool }.

(** [std::istringstream in_str(s)] *)
Definition istringstream (s : string) : istream := mkIstream (chars s) true.

(** The characters before the first newline of the buffer, and what
    follows that newline when there is one. *)
Fixpoint read_line (buf : list ascii) : list ascii * option (list ascii) :=
  match buf with
  | [] => ([], None)
  | c :: rest =>
      if Ascii.eqb c newline then ([], Some rest)
      else let (line, after) := read_line rest in (c :: line, after)
  end.

(** [getline(input, str)].  On a stream that is not good nothing is read
    and [str] keeps its value.  Otherwise [str] is replaced by the
    characters up to the next newline, which is consumed; when the input
    ends before a newline the stream stops being good. *)
Definition getline (input : istream) (str : string) : istream * string :=
  if good input then
    match read_line (rdbuf input) with
    | (line, Some rest) => (mkIstream rest true, string_of_list_ascii line)
    | (line, None) => (mkIstream [] false, string_of_list_ascii line)
    end
  else (input, str).

(** The loop of [ReadDomains]: [n] turns are left, [domains] is the vector
    filled so far. *)
Fixpoint ReadDomains_loop (input : istream) (n : nat) (domains : list Domain)
    : istream * list Domain :=
  match n with
  | O => (input, domains)
  | S n' =>
      let (input', domain_name) := getline input ""%string in
      ReadDomains_loop input' n' (domains ++ [Domain_new domain_name])
  end.

(** [ReadDomains(input, number)], with the stream as it is left.
    [domains.reserve(number)] throws [std::length_error] ([None]) when
    [number] exceeds the [max_size()] of the vector, here [vector_max_size]. *)
Definition ReadDomains (vector_max_size : nat) (input : istream) (number : nat)
    : option (istream * list Domain) :=
  if vector_max_size <? number then None
  else if number =? 0 then Some (input, [])
  else Some (ReadDomains_loop input number []).

(** An output stream: the characters written so far. *)
Definition ostream : Type := string.

Definition endl (out : ostream) : ostream := (out ++ String newline "")%string.

(** [operator<<(std::ostream&, const Domain&)] *)
Definition put_Domain (out : ostream) (domain : Domain) : ostream :=
  (out ++ domain_name_ domain)%string.

(** [operator<<(std::ostream&, const std::vector<Domain>&)] *)
Fixpoint put_Domains (out : ostream) (domains : list Domain) : ostream :=
  match domains with
  | [] => out
  | domain :: rest => put_Domains (endl (put_Domain out domain)) rest
  end.

(** [operator<<(std::ostream&, const DomainChecker&)] *)
Definition put_DomainChecker (out : ostream) (checker : DomainChecker) : ostream :=
  put_Domains out (forbidden_domains_ checker).

(** ** Notions used in the statements *)

(** The comparison of [Domain::operator<] on two reversed names. *)
Definition lex (r1 r2 : list ascii) : bool :=
  Std.lexicographical_compare comp r1 r2.

(** The reversed name of a domain: what [operator<] iterates on. *)
Definition key (d : Domain) : list ascii := rev (chars (domain_name_ d)).

(** [a <= b] for the order of [operator<]. *)
Definition Domain_le (a b : Domain) : Prop := Domain_lt b a = false.

(** [a] is strictly below [b] and [b] is not one of its subdomains. *)
Definition apart (a b : Domain) : Prop :=
  Domain_lt a b = true /\ IsSubdomain b a = false.

(** What [PrepareForbiddenDomains] leaves in [forbidden_domains_]. *)
Definition prepared (domains : list Domain) : list Domain :=
  Std.unique redundant (Std.sort Domain_lt domains).

(** The reference answer: some entry of [l] has [q] among its subdomains. *)
Definition covered (q : Domain) (l : list Domain) : bool :=
  existsb (IsSubdomain q) l.

(** The relation in the words of the specification: [a] equals [b], or [a]
    ends with a dot followed by [b]. *)
Definition subdomain_of (a b : string) : Prop :=
  a = b \/ exists x : string, a = (x ++ "." ++ b)%string.

(** Build a checker from [domains] and ask about [query]. *)
Definition answer (domains : list Domain) (query : Domain) : option bool :=
  match DomainChecker_new domains with
  | None => None
  | Some checker =>
      match IsForbidden query checker with
      | Some (b, _) => Some b
      | None => None
      end
  end.

(** * Properties *)

(** ** The order on characters *)

Lemma char_val_inj (a b : ascii) : char_val a = char_val b -> a = b.
Proof.
  unfold char_val. intros H.
  pose proof (N_ascii_bounded a) as Ha.
  pose proof (N_ascii_bounded b) as Hb.
  assert (E : N_of_ascii a = N_of_ascii b).
  { destruct (Z.ltb_spec (Z.of_N (N_of_ascii a)) 128);
    destruct (Z.ltb_spec (Z.of_N (N_of_ascii b)) 128); lia. }
  rewrite <- (ascii_N_embedding a), <- (ascii_N_embedding b).
  now rewrite E.
Qed.

Lemma char_lt_irrefl a : char_lt a a = false.
Proof. unfold char_lt. apply Z.ltb_irrefl. Qed.

Lemma char_lt_trans a b c :
  char_lt a b = true -> char_lt b c = true -> char_lt a c = true.
Proof. unfold char_lt. rewrite !Z.ltb_lt. lia. Qed.

Lemma char_lt_total a b :
  char_lt a b = false -> char_lt b a = false -> a = b.
Proof.
  unfold char_lt. rewrite !Z.ltb_ge. intros. apply char_val_inj. lia.
Qed.

(** [comp] puts the dot below every other character and orders the other
    characters by [char_lt]: a strict total order. *)

Lemma comp_dot_l c : comp dot c = negb (Ascii.eqb c dot).
Proof. unfold comp. now rewrite Ascii.eqb_refl. Qed.

Lemma comp_dot_r c : comp c dot = false.
Proof. unfold comp. rewrite Ascii.eqb_refl. apply andb_false_r. Qed.

Lemma comp_irrefl a : comp a a = false.
Proof.
  unfold comp. rewrite char_lt_irrefl.
  now destruct (Ascii.eqb a dot).
Qed.

Lemma comp_trans a b c :
  comp a b = true -> comp b c = true -> comp a c = true.
Proof.
  unfold comp.
  destruct (Ascii.eqb a dot), (Ascii.eqb b dot), (Ascii.eqb c dot);
    simpl; rewrite ?andb_true_r, ?andb_false_r; try easy.
  apply char_lt_trans.
Qed.

Lemma comp_total a b : comp a b = false -> comp b a = false -> a = b.
Proof.
  unfold comp.
  destruct (Ascii.eqb_spec a dot) as [Ha|Ha];
  destruct (Ascii.eqb_spec b dot) as [Hb|Hb];
    simpl; rewrite ?andb_true_r, ?andb_false_r; try easy.
  - congruence.
  - apply char_lt_total.
Qed.

Lemma comp_asym a b : comp a b = true -> comp b a = false.
Proof.
  intros H. destruct (comp b a) eqn:E; [|reflexivity].
  pose proof (comp_trans _ _ _ H E) as F.
  now rewrite comp_irrefl in F.
Qed.

(** ** The order on reversed names *)

Lemma lex_cons a r1 b r2 :
  lex (a :: r1) (b :: r2) =
  if comp a b then true else if comp b a then false else lex r1 r2.
Proof. reflexivity. Qed.

Lemma lex_irrefl r : lex r r = false.
Proof.
  induction r as [|a r IH]; [reflexivity|].
  rewrite lex_cons, comp_irrefl. exact IH.
Qed.

Lemma lex_total r1 : forall r2,
  lex r1 r2 = false -> lex r2 r1 = false -> r1 = r2.
Proof.
  induction r1 as [|a r1 IH]; intros [|b r2]; try reflexivity; try discriminate.
  rewrite !lex_cons.
  destruct (comp a b) eqn:Eab; [discriminate|].
  destruct (comp b a) eqn:Eba; [discriminate|].
  intros H1 H2. rewrite (comp_total _ _ Eab Eba). f_equal. now apply IH.
Qed.

Lemma lex_trans r1 : forall r2 r3,
  lex r1 r2 = true -> lex r2 r3 = true -> lex r1 r3 = true.
Proof.
  induction r1 as [|a r1 IH]; intros [|b r2] [|c r3]; try easy.
  rewrite !lex_cons.
  destruct (comp a b) eqn:Eab.
  - intros _. destruct (comp b c) eqn:Ebc.
    + intros _. now rewrite (comp_trans _ _ _ Eab Ebc).
    + destruct (comp c b) eqn:Ecb; [discriminate|].
      rewrite (comp_total _ _ Ebc Ecb) in Eab. now rewrite Eab.
  - destruct (comp b a) eqn:Eba; [discriminate|].
    rewrite (comp_total _ _ Eab Eba). intros H12.
    destruct (comp b c); [reflexivity|].
    destruct (comp c b); [discriminate|].
    now apply IH.
Qed.

Lemma lex_asym r1 r2 : lex r1 r2 = true -> lex r2 r1 = false.
Proof.
  intros H. destruct (lex r2 r1) eqn:E; [|reflexivity].
  pose proof (lex_trans _ _ _ H E) as F.
  now rewrite lex_irrefl in F.
Qed.

(** A prefix is never above its extensions. *)
Lemma lex_prefix r x : lex (r ++ x) r = false.
Proof.
  induction r as [|a r IH]; simpl.
  - now destruct x.
  - rewrite lex_cons, comp_irrefl. exact IH.
Qed.

(** Between [r] and an extension of [r] by a dot there are only [r] and
    extensions of [r] by a dot: the dot is the least character. *)
Lemma lex_convex r : forall y c,
  lex c r = false -> lex (r ++ dot :: y) c = false ->
  c = r \/ exists z, c = r ++ dot :: z.
Proof.
  induction r as [|a r IH]; intros y [|c0 c]; simpl; try easy.
  - now left.
  - rewrite lex_cons, comp_dot_l, comp_dot_r.
    destruct (Ascii.eqb_spec c0 dot) as [->|]; [|discriminate].
    intros _ _. right. now exists c.
  - rewrite !lex_cons.
    destruct (comp c0 a) eqn:E1; [discriminate|].
    destruct (comp a c0) eqn:E2; [discriminate|].
    rewrite (comp_total _ _ E1 E2).
    intros H1 H2. destruct (IH _ _ H1 H2) as [->|[z ->]].
    + now left.
    + right. now exists z.
Qed.

(** ** Names, suffixes and the subdomain relation *)

Lemma chars_inj s1 s2 : chars s1 = chars s2 -> s1 = s2.
Proof.
  unfold chars. intros H.
  rewrite <- (string_of_list_ascii_of_string s1),
          <- (string_of_list_ascii_of_string s2).
  now rewrite H.
Qed.

Lemma chars_append s1 s2 : chars (s1 ++ s2)%string = chars s1 ++ chars s2.
Proof.
  unfold chars. induction s1 as [|a s1 IH]; simpl; [reflexivity|].
  now rewrite IH.
Qed.

Lemma chars_of_list l : chars (string_of_list_ascii l) = l.
Proof. apply list_ascii_of_string_of_list_ascii. Qed.

Lemma ends_with_spec s x :
  Std.ends_with s x = true <-> exists p, s = p ++ x.
Proof.
  unfold Std.ends_with. rewrite andb_true_iff, Nat.leb_le. split.
  - intros [Hlen H].
    destruct (list_eq_dec ascii_dec (skipn (length s - length x) s) x) as [E|];
      [|discriminate].
    exists (firstn (length s - length x) s).
    transitivity (firstn (length s - length x) s ++ skipn (length s - length x) s).
    + symmetry. apply firstn_skipn.
    + f_equal. exact E.
  - intros [p ->]. rewrite length_app. split; [lia|].
    replace (length p + length x - length x) with (length p) by lia.
    rewrite skipn_app, skipn_all, Nat.sub_diag. simpl.
    now destruct (list_eq_dec ascii_dec x x).
Qed.

Lemma key_inj a b : key a = key b -> a = b.
Proof.
  unfold key. intros H. apply rev_inj in H. apply chars_inj in H.
  destruct a, b. simpl in H. now subst.
Qed.

Lemma Domain_lt_key a b : Domain_lt a b = lex (key a) (key b).
Proof. reflexivity. Qed.

(** [IsSubdomain] on the characters of the two names. *)
Lemma IsSubdomain_chars a b :
  IsSubdomain a b = true <->
  chars (domain_name_ a) = chars (domain_name_ b) \/
  exists x, chars (domain_name_ a) = x ++ dot :: chars (domain_name_ b).
Proof.
  unfold IsSubdomain. rewrite andb_true_iff, Nat.leb_le, ends_with_spec. split.
  - intros [_ [[|c p] H]]; simpl in H.
    + left. now injection H.
    + right. exists p. now injection H.
  - intros [E|[x E]]; rewrite E.
    + split; [lia|]. now exists [].
    + split; [rewrite length_app; simpl; lia|]. now exists (dot :: x).
Qed.

(** [IsSubdomain] on the reversed names: equal, or an extension by a dot. *)
Lemma IsSubdomain_key a b :
  IsSubdomain a b = true <->
  key a = key b \/ exists y, key a = key b ++ dot :: y.
Proof.
  rewrite IsSubdomain_chars. unfold key. split.
  - intros [E|[x E]]; rewrite E.
    + now left.
    + right. exists (rev x). rewrite rev_app_distr. simpl.
      now rewrite <- app_assoc.
  - intros [E|[y E]].
    + left. now apply rev_inj.
    + right. exists (rev y). apply rev_inj.
      rewrite E, rev_app_distr. simpl.
      now rewrite rev_involutive, <- app_assoc.
Qed.

Lemma IsSubdomain_refl d : IsSubdomain d d = true.
Proof. apply IsSubdomain_key. now left. Qed.

Lemma IsSubdomain_trans a b c :
  IsSubdomain a b = true -> IsSubdomain b c = true -> IsSubdomain a c = true.
Proof.
  rewrite !IsSubdomain_key.
  intros [E1|[y1 E1]] [E2|[y2 E2]]; rewrite E1, E2.
  - now left.
  - right. now exists y2.
  - right. now exists y1.
  - right. exists (y2 ++ dot :: y1). now rewrite <- app_assoc.
Qed.

(** ** [operator<] is a strict total order on domains *)

Lemma Domain_lt_irrefl d : Domain_lt d d = false.
Proof. apply lex_irrefl. Qed.

Lemma Domain_lt_trans a b c :
  Domain_lt a b = true -> Domain_lt b c = true -> Domain_lt a c = true.
Proof. apply lex_trans. Qed.

Lemma Domain_lt_asym a b : Domain_lt a b = true -> Domain_lt b a = false.
Proof. apply lex_asym. Qed.

Lemma Domain_lt_total a b :
  Domain_lt a b = false -> Domain_lt b a = false -> a = b.
Proof. intros H1 H2. apply key_inj. now apply lex_total. Qed.

Lemma Domain_le_refl d : Domain_le d d.
Proof. apply Domain_lt_irrefl. Qed.

Lemma Domain_le_lt_trans a b c :
  Domain_le a b -> Domain_lt b c = true -> Domain_lt a c = true.
Proof.
  unfold Domain_le. intros H1 H2.
  destruct (Domain_lt a b) eqn:E.
  - eapply Domain_lt_trans; eassumption.
  - now rewrite (Domain_lt_total _ _ E H1).
Qed.

Lemma Domain_lt_le_trans a b c :
  Domain_lt a b = true -> Domain_le b c -> Domain_lt a c = true.
Proof.
  unfold Domain_le. intros H1 H2.
  destruct (Domain_lt b c) eqn:E.
  - eapply Domain_lt_trans; eassumption.
  - now rewrite <- (Domain_lt_total _ _ E H2).
Qed.

Lemma Domain_le_trans a b c : Domain_le a b -> Domain_le b c -> Domain_le a c.
Proof.
  intros H1 H2. unfold Domain_le.
  destruct (Domain_lt c a) eqn:E; [|reflexivity].
  pose proof (Domain_lt_le_trans _ _ _ E H1) as F.
  unfold Domain_le in H2. congruence.
Qed.

Lemma Domain_le_antisym a b : Domain_le a b -> Domain_le b a -> a = b.
Proof. unfold Domain_le. intros H1 H2. now apply Domain_lt_total. Qed.

Lemma Domain_lt_le a b : Domain_lt a b = true -> Domain_le a b.
Proof. apply Domain_lt_asym. Qed.

Lemma Domain_le_cases a b : Domain_le a b -> Domain_lt a b = true \/ a = b.
Proof.
  unfold Domain_le. intros H.
  destruct (Domain_lt a b) eqn:E; [now left|right].
  now apply Domain_lt_total.
Qed.

(** A domain is never below one of its superdomains. *)
Lemma IsSubdomain_le d p : IsSubdomain d p = true -> Domain_le p d.
Proof.
  rewrite IsSubdomain_key. unfold Domain_le. rewrite Domain_lt_key.
  intros [E|[y E]]; rewrite E.
  - apply lex_irrefl.
  - apply lex_prefix.
Qed.

(** The subdomains of [p] are an interval of the order that starts at [p]. *)
Lemma IsSubdomain_convex q p c :
  IsSubdomain q p = true -> Domain_le p c -> Domain_le c q ->
  IsSubdomain c p = true.
Proof.
  rewrite !IsSubdomain_key. unfold Domain_le. rewrite !Domain_lt_key.
  intros [E|[y E]] H1 H2; rewrite E in H2.
  - left. now apply lex_total.
  - now apply (lex_convex _ y).
Qed.

(** ** [std::sort] with [operator<] *)

Lemma insert_perm x l : Permutation (Std.insert Domain_lt x l) (x :: l).
Proof.
  induction l as [|y t IH]; simpl; [reflexivity|].
  destruct (Domain_lt y x); [|reflexivity].
  rewrite IH. apply perm_swap.
Qed.

Lemma sort_perm l : Permutation (Std.sort Domain_lt l) l.
Proof.
  induction l as [|x t IH]; simpl; [reflexivity|].
  rewrite insert_perm. now constructor.
Qed.

Lemma insert_sorted x l :
  StronglySorted Domain_le l -> StronglySorted Domain_le (Std.insert Domain_lt x l).
Proof.
  induction 1 as [|y t Ht IH Hy]; simpl.
  - repeat constructor.
  - destruct (Domain_lt y x) eqn:E.
    + constructor; [exact IH|].
      eapply Permutation_Forall; [symmetry; apply insert_perm|].
      constructor; [now apply Domain_lt_le | exact Hy].
    + constructor; [now constructor|].
      constructor; [exact E|].
      eapply Forall_impl; [|exact Hy].
      intros z Hz. eapply Domain_le_trans; [exact E | exact Hz].
Qed.

Lemma sort_sorted l : StronglySorted Domain_le (Std.sort Domain_lt l).
Proof.
  induction l as [|x t IH]; simpl; [constructor|].
  now apply insert_sorted.
Qed.

(** There is one sorted arrangement of a sequence of domains: whatever
    algorithm [std::sort] runs, it returns [Std.sort Domain_lt l]. *)
Lemma sorted_perm_eq l1 : forall l2,
  StronglySorted Domain_le l1 -> StronglySorted Domain_le l2 ->
  Permutation l1 l2 -> l1 = l2.
Proof.
  induction l1 as [|x t IH]; intros l2 S1 S2 P.
  - now apply Permutation_nil in P.
  - destruct l2 as [|y u].
    + symmetry in P. now apply Permutation_nil in P.
    + inversion S1 as [|? ? St Hx]; subst.
      inversion S2 as [|? ? Su Hy]; subst.
      assert (E : x = y).
      { assert (I1 : In x (y :: u)) by (eapply Permutation_in; [exact P|now left]).
        assert (I2 : In y (x :: t))
          by (eapply Permutation_in; [symmetry; exact P|now left]).
        rewrite Forall_forall in Hx, Hy.
        destruct I1 as [->|I1]; [reflexivity|].
        destruct I2 as [->|I2]; [reflexivity|].
        apply Domain_le_antisym; auto. }
      subst y. f_equal. apply IH; auto.
      eapply Permutation_cons_inv; exact P.
Qed.

Lemma sort_unique l s :
  Permutation s l -> StronglySorted Domain_le s -> s = Std.sort Domain_lt l.
Proof.
  intros P S. apply sorted_perm_eq; auto using sort_sorted.
  rewrite P. symmetry. apply sort_perm.
Qed.

(** ** [std::unique] on a sorted sequence *)

Lemma apart_not_sub_l a b : apart a b -> IsSubdomain a b = false.
Proof.
  intros [Hlt _]. destruct (IsSubdomain a b) eqn:E; [|reflexivity].
  apply IsSubdomain_le in E. unfold Domain_le in E. congruence.
Qed.

(** On a sorted sequence the predicate of [std::unique] drops exactly the
    subdomains of the element kept last. *)
Lemma redundant_sorted k x :
  Domain_le k x -> redundant k x = IsSubdomain x k.
Proof.
  intros H. unfold redundant.
  destruct (IsSubdomain k x) eqn:E; [|reflexivity]. simpl.
  apply IsSubdomain_le in E.
  rewrite (Domain_le_antisym _ _ H E). symmetry. apply IsSubdomain_refl.
Qed.

Lemma unique_loop_incl k l x :
  In x (Std.unique_loop redundant k l) -> In x l.
Proof.
  revert k. induction l as [|y t IH]; intros k; simpl; [easy|].
  destruct (redundant k y).
  - intros H. right. now apply (IH k).
  - intros [->|H]; [now left|right]. now apply (IH y).
Qed.

Lemma unique_loop_apart l : forall k,
  StronglySorted Domain_le (k :: l) ->
  StronglySorted apart (k :: Std.unique_loop redundant k l).
Proof.
  induction l as [|x t IH]; intros k S; simpl.
  - repeat constructor.
  - inversion S as [|? ? Sxt Hk]; subst.
    inversion Hk as [|? ? Hkx Hkt]; subst.
    inversion Sxt as [|? ? St Hx]; subst.
    rewrite (redundant_sorted _ _ Hkx).
    destruct (IsSubdomain x k) eqn:E.
    + apply IH. now constructor.
    + specialize (IH x Sxt).
      constructor; [exact IH|].
      assert (Hlt : Domain_lt k x = true).
      { destruct (Domain_le_cases _ _ Hkx) as [Hlt| ->]; [assumption|].
        now rewrite IsSubdomain_refl in E. }
      rewrite Forall_forall. intros y Hy.
      assert (Hxy : Domain_le x y).
      { destruct Hy as [->|Hy]; [apply Domain_le_refl|].
        apply unique_loop_incl in Hy.
        rewrite Forall_forall in Hx. now apply Hx. }
      split.
      * eapply Domain_lt_le_trans; eassumption.
      * destruct (IsSubdomain y k) eqn:F; [|reflexivity].
        rewrite (IsSubdomain_convex y k x F Hkx Hxy) in E. discriminate.
Qed.

Lemma unique_loop_cover l : forall k x,
  StronglySorted Domain_le (k :: l) -> In x (k :: l) ->
  exists p, In p (k :: Std.unique_loop redundant k l) /\ IsSubdomain x p = true.
Proof.
  induction l as [|y t IH]; intros k x S Hin.
  - destruct Hin as [->|Hin]; [|easy].
    exists x. split; [now left|apply IsSubdomain_refl].
  - inversion S as [|? ? Syt Hk]; subst.
    inversion Hk as [|? ? Hky Hkt]; subst.
    inversion Syt as [|? ? St Hy]; subst.
    simpl. rewrite (redundant_sorted _ _ Hky).
    destruct (IsSubdomain y k) eqn:E.
    + destruct Hin as [->|[->|Hin]].
      * exists x. split; [now left|apply IsSubdomain_refl].
      * exists k. split; [now left|exact E].
      * apply IH; [now constructor|now right].
    + destruct Hin as [->|Hin].
      * exists x. split; [now left|apply IsSubdomain_refl].
      * destruct (IH y x Syt Hin) as [p [Hp Hs]].
        exists p. split; [now right|exact Hs].
Qed.

(** ** The vector prepared by the constructor *)

Lemma PrepareForbiddenDomains_run c :
  PrepareForbiddenDomains c =
  Some (tt, mkChecker (prepared (forbidden_domains_ c))).
Proof. reflexivity. Qed.

Lemma DomainChecker_new_prepared domains :
  DomainChecker_new domains = Some (mkChecker (prepared domains)).
Proof. reflexivity. Qed.

Lemma prepared_apart domains : StronglySorted apart (prepared domains).
Proof.
  unfold prepared. pose proof (sort_sorted domains) as S.
  destruct (Std.sort Domain_lt domains) as [|k l]; simpl.
  - constructor.
  - now apply unique_loop_apart.
Qed.

Lemma prepared_incl domains p : In p (prepared domains) -> In p domains.
Proof.
  unfold prepared. intros H.
  eapply Permutation_in; [apply sort_perm|].
  destruct (Std.sort Domain_lt domains) as [|k l]; simpl in *; [easy|].
  destruct H as [->|H]; [now left|right].
  eapply unique_loop_incl; exact H.
Qed.

Lemma prepared_cover domains x :
  In x domains ->
  exists p, In p (prepared domains) /\ IsSubdomain x p = true.
Proof.
  unfold prepared. intros H.
  pose proof (sort_sorted domains) as S.
  apply (Permutation_in _ (Permutation_sym (sort_perm domains))) in H.
  destruct (Std.sort Domain_lt domains) as [|k l]; [easy|].
  now apply unique_loop_cover.
Qed.

(** ** [std::upper_bound] on a partitioned vector *)

Section UpperBound.
Context {A : Type} (lt : A -> A -> bool) (value : A).
Variables l1 l2 : list A.
Hypothesis below : Forall (fun e => lt value e = false) l1.
Hypothesis above : Forall (fun e => lt value e = true) l2.

(** The binary search keeps the partition point within the range that is
    still searched, never leaves the vector, and ends on it. *)
Lemma upper_bound_loop_spec fuel : forall first count,
  first <= length l1 <= first + count ->
  first + count <= length (l1 ++ l2) ->
  count < fuel ->
  Std.upper_bound_loop lt fuel (l1 ++ l2) value first count = Some (length l1).
Proof.
  induction fuel as [|fuel IH]; intros first count H1 H2 H3; [lia|].
  cbn [Std.upper_bound_loop]. destruct (Nat.eqb_spec count 0) as [->|Hc].
  - f_equal. lia.
  - pose proof (Nat.div_lt count 2 ltac:(lia) ltac:(lia)) as Hstep.
    set (step := count / 2) in *.
    destruct (Nat.lt_ge_cases (first + step) (length l1)) as [Hit|Hit].
    + rewrite nth_error_app1 by exact Hit.
      destruct (nth_error l1 (first + step)) as [e|] eqn:E.
      * rewrite Forall_forall in below.
        rewrite (below e (nth_error_In _ _ E)). simpl.
        apply IH; lia.
      * apply nth_error_None in E. lia.
    + rewrite nth_error_app2 by exact Hit.
      rewrite length_app in H2.
      destruct (nth_error l2 (first + step - length l1)) as [e|] eqn:E.
      * rewrite Forall_forall in above.
        rewrite (above e (nth_error_In _ _ E)). simpl.
        apply IH; rewrite ?length_app; lia.
      * apply nth_error_None in E. lia.
Qed.

Lemma upper_bound_spec :
  Std.upper_bound lt (l1 ++ l2) value = Some (length l1).
Proof.
  unfold Std.upper_bound.
  apply upper_bound_loop_spec; rewrite ?length_app; lia.
Qed.
End UpperBound.

(** A sorted vector of domains is partitioned by any query. *)
Lemma sorted_partition q v :
  StronglySorted Domain_le v ->
  exists l1 l2, v = l1 ++ l2 /\
    Forall (fun e => Domain_lt q e = false) l1 /\
    Forall (fun e => Domain_lt q e = true) l2.
Proof.
  induction 1 as [|x t St IH Hx].
  - exists [], []. repeat split; constructor.
  - destruct (Domain_lt q x) eqn:E.
    + exists [], (x :: t). repeat split; [constructor|].
      constructor; [exact E|].
      eapply Forall_impl; [|exact Hx].
      intros e He. eapply Domain_lt_le_trans; eassumption.
    + destruct IH as [l1 [l2 [-> [H1 H2]]]].
      exists (x :: l1), l2. repeat split; [|exact H2].
      now constructor.
Qed.

Lemma apart_sorted_le v : StronglySorted apart v -> StronglySorted Domain_le v.
Proof.
  induction 1 as [|x t St IH Hx]; constructor; [exact IH|].
  eapply Forall_impl; [|exact Hx].
  intros e [He _]. now apply Domain_lt_le.
Qed.

(** ** [IsForbidden] on a prepared vector *)

Lemma covered_true q l :
  covered q l = true <-> exists p, In p l /\ IsSubdomain q p = true.
Proof. apply existsb_exists. Qed.

Lemma covered_false q l :
  covered q l = false <-> forall p, In p l -> IsSubdomain q p = false.
Proof.
  unfold covered. split.
  - intros H p Hp. destruct (IsSubdomain q p) eqn:E; [|reflexivity].
    rewrite <- H. symmetry. apply existsb_exists. now exists p.
  - intros H. destruct (existsb (IsSubdomain q) l) eqn:E; [|reflexivity].
    apply existsb_exists in E. destruct E as [p [Hp Hs]].
    rewrite (H p Hp) in Hs. discriminate.
Qed.

(** The same queries are covered by sequences that cover each other. *)
Lemma covered_mono q l l' :
  (forall x, In x l -> exists p, In p l' /\ IsSubdomain x p = true) ->
  covered q l = true -> covered q l' = true.
Proof.
  intros H. rewrite !covered_true. intros [x [Hx Hq]].
  destruct (H x Hx) as [p [Hp Hs]]. exists p. split; [exact Hp|].
  eapply IsSubdomain_trans; eassumption.
Qed.

Lemma covered_prepared q domains :
  covered q (prepared domains) = covered q domains.
Proof.
  destruct (covered q domains) eqn:E.
  - revert E. apply covered_mono. apply prepared_cover.
  - rewrite covered_false in *. intros p Hp. apply E.
    now apply prepared_incl.
Qed.

Lemma sorted_app_mid {A} (R : A -> A -> Prop) l0 x l2 :
  StronglySorted R (l0 ++ x :: l2) -> forall p, In p l0 -> R p x.
Proof.
  induction l0 as [|y l0 IH]; simpl; [easy|].
  intros S p [->|Hp].
  - inversion S as [|? ? _ Hy]; subst.
    rewrite Forall_forall in Hy. apply Hy, in_or_app. right. now left.
  - inversion S; subst. now apply IH.
Qed.

(** The element just before the upper bound decides the query: on a vector
    of pairwise [apart] domains, [IsForbidden] never fails, leaves the
    object as it is and answers [covered]. *)
Lemma IsForbidden_sorted q c :
  StronglySorted apart (forbidden_domains_ c) ->
  IsForbidden q c = Some (covered q (forbidden_domains_ c), c).
Proof.
  intros S. unfold IsForbidden, bind, get_forbidden, checked, ret.
  destruct (sorted_partition q _ (apart_sorted_le _ S)) as [l1 [l2 [E [H1 H2]]]].
  rewrite E in *. rewrite (upper_bound_spec _ _ _ _ H1 H2).
  assert (Hl2 : forall p, In p l2 -> IsSubdomain q p = false).
  { intros p Hp. rewrite Forall_forall in H2.
    destruct (IsSubdomain q p) eqn:F; [|reflexivity].
    apply IsSubdomain_le in F. unfold Domain_le in F.
    rewrite (H2 p Hp) in F. discriminate. }
  destruct (Nat.eqb_spec (length l1) 0) as [Hz|Hz].
  - destruct l1; [|discriminate]. simpl.
    f_equal. f_equal. symmetry. now apply covered_false.
  - destruct (exists_last (l := l1)) as [l0 [cand ->]];
      [intros ->; now apply Hz|].
    rewrite length_app, <- app_assoc. simpl.
    replace (length l0 + 1 - 1) with (length l0) by lia.
    rewrite nth_error_app2, Nat.sub_diag by lia. simpl.
    f_equal. f_equal.
    destruct (IsSubdomain q cand) eqn:F; symmetry.
    + apply covered_true. exists cand. split; [|exact F].
      apply in_or_app. right. now left.
    + apply covered_false. intros p Hp.
      apply in_app_or in Hp. destruct Hp as [Hp|[->|Hp]]; auto.
      destruct (IsSubdomain q p) eqn:G; [|reflexivity].
      rewrite <- app_assoc in S. simpl in S.
      destruct (sorted_app_mid _ _ _ _ S p Hp) as [Hlt Hsub].
      rewrite Forall_forall in H1.
      assert (Hc : Domain_le cand q).
      { apply H1. apply in_or_app. right. now left. }
      rewrite (IsSubdomain_convex q p cand G (Domain_lt_le _ _ Hlt) Hc) in Hsub.
      discriminate.
Qed.

(** ** The subdomain relation on names *)

Lemma IsSubdomain_names a b :
  IsSubdomain a b = true <-> subdomain_of (domain_name_ a) (domain_name_ b).
Proof.
  rewrite IsSubdomain_chars. unfold subdomain_of. split.
  - intros [E|[x E]].
    + left. now apply chars_inj.
    + right. exists (string_of_list_ascii x). apply chars_inj.
      now rewrite !chars_append, chars_of_list.
  - intros [E|[x E]]; rewrite E.
    + now left.
    + right. exists (chars x). now rewrite !chars_append.
Qed.

Lemma covered_names q l :
  covered q l = true <->
  exists p, In p l /\ subdomain_of (domain_name_ q) (domain_name_ p).
Proof.
  rewrite covered_true. split; intros [p [Hp H]]; exists p; split; auto;
    now apply IsSubdomain_names.
Qed.

(** ** Checkers and queries *)

Lemma IsForbidden_prepared domains q :
  IsForbidden q (mkChecker (prepared domains)) =
  Some (covered q domains, mkChecker (prepared domains)).
Proof.
  rewrite IsForbidden_sorted by apply prepared_apart.
  simpl. now rewrite covered_prepared.
Qed.

Lemma answer_covered domains q : answer domains q = Some (covered q domains).
Proof.
  unfold answer. rewrite DomainChecker_new_prepared.
  now rewrite IsForbidden_prepared.
Qed.

Lemma covered_same_entries q l l' :
  (forall x, In x l <-> In x l') -> covered q l = covered q l'.
Proof.
  intros H. destruct (covered q l') eqn:E.
  - rewrite covered_true in *. destruct E as [p [Hp Hs]].
    exists p. split; [now apply H|exact Hs].
  - rewrite covered_false in *. intros p Hp. apply E. now apply H.
Qed.

Lemma query_loop_sorted ts : forall c,
  StronglySorted apart (forbidden_domains_ c) ->
  query_loop ts c =
  Some (map (fun t => token (covered t (forbidden_domains_ c))) ts, c).
Proof.
  induction ts as [|t ts IH]; intros c S; [reflexivity|].
  simpl. unfold bind at 1. rewrite (IsForbidden_sorted t c S).
  unfold bind at 1. now rewrite (IH c S).
Qed.

Lemma main_covered fs ts :
  main fs ts =
  Some (map (fun t => token (covered (Domain_new t) (names fs))) ts).
Proof.
  unfold main. fold (names fs). rewrite DomainChecker_new_prepared.
  rewrite query_loop_sorted by apply prepared_apart.
  simpl. f_equal. rewrite map_map. apply map_ext.
  intros t. now rewrite covered_prepared.
Qed.

Lemma sorted_nth {A} (R : A -> A -> Prop) l :
  StronglySorted R l ->
  forall i j a b, i < j ->
    nth_error l i = Some a -> nth_error l j = Some b -> R a b.
Proof.
  induction 1 as [|x t St IH Hx]; intros i j a b Hij Ha Hb.
  - now destruct i.
  - destruct j as [|j]; [lia|]. simpl in Hb.
    destruct i as [|i]; simpl in Ha.
    + injection Ha as <-. rewrite Forall_forall in Hx.
      apply Hx. eapply nth_error_In; exact Hb.
    + apply (IH i j); auto. lia.
Qed.

(** ** The assertions of the test functions of the source *)

Example TestDomain_IsSubdomain :
  IsSubdomain (Domain_new "duck.com") (Domain_new "com") = true /\
  IsSubdomain (Domain_new "duck.ru") (Domain_new "com") = false /\
  IsSubdomain (Domain_new "alter.duck.com") (Domain_new "com") = true /\
  IsSubdomain (Domain_new "class.com") (Domain_new "class.com") = true /\
  IsSubdomain (Domain_new "class.ru") (Domain_new "class.com") = false /\
  IsSubdomain (Domain_new "duck.class.com") (Domain_new "class.com") = true /\
  IsSubdomain (Domain_new "duck.com") (Domain_new "class.com") = false.
Proof. repeat split; reflexivity. Qed.

Example TestDomainChecker :
  DomainChecker_new
    (names ["gdz.ua"; "gdz.ub"; "gdz.uc"; "gdz.ud"; "gdz.uf"; "gdz.ug"]%string) =
  Some (mkChecker
    (names ["gdz.ua"; "gdz.ub"; "gdz.uc"; "gdz.ud"; "gdz.uf"; "gdz.ug"]%string)).
Proof. reflexivity. Qed.

Example TestIsForbidden_empty :
  main []
       ["gdz.ru"; "gdz.com"; "m.maps.me"; "alg.m.gdz.ru";
        "maps.com"; "maps.ru"; "gdz.ua"]%string =
  Some ["Good"; "Good"; "Good"; "Good"; "Good"; "Good"; "Good"]%string.
Proof. reflexivity. Qed.

(** The example of the comment on [operator<]: ".ru" is below ".cru". *)
Example shorter_suffix_first :
  Domain_lt (Domain_new ".ru") (Domain_new ".cru") = true.
Proof. reflexivity. Qed.

(** * The claims of the specification *)

(** C1. For every input sequence of domains and every query, the checker
    is built, [IsForbidden] returns a boolean, and that boolean is true
    exactly when the query equals or is a subdomain of some entry of the
    normalized vector, which is the case exactly when it equals or is a
    subdomain of some domain of the input.  A checker built from the
    empty sequence answers false to every query. *)
Theorem IsForbidden_correct :
  (forall (domains : list Domain) (query : Domain),
     exists checker b,
       DomainChecker_new domains = Some checker /\
       IsForbidden query checker = Some (b, checker) /\
       (b = true <->
        exists p, In p (forbidden_domains_ checker) /\
                  subdomain_of (domain_name_ query) (domain_name_ p)) /\
       (b = true <->
        exists p, In p domains /\
                  subdomain_of (domain_name_ query) (domain_name_ p))) /\
  (forall query : Domain,
     exists checker,
       DomainChecker_new [] = Some checker /\
       IsForbidden query checker = Some (false, checker)).
Proof.
  split.
  - intros domains query.
    exists (mkChecker (prepared domains)), (covered query domains).
    split; [apply DomainChecker_new_prepared|].
    split; [apply IsForbidden_prepared|].
    split.
    + simpl. rewrite <- covered_names. now rewrite covered_prepared.
    + apply covered_names.
  - intros query. exists (mkChecker (prepared [])).
    split; [apply DomainChecker_new_prepared|].
    apply IsForbidden_prepared.
Qed.

(** C2. After construction from any input sequence, the stored vector is
    sorted ascending for [operator<], no element at one position is a
    subdomain of the element at another position, it consists of domains
    of the input and covers every domain of the input, and the queries
    made afterwards (one or a whole sequence of them) leave the object as
    it was. *)
Theorem forbidden_domains_invariant :
  forall domains : list Domain,
    exists checker,
      DomainChecker_new domains = Some checker /\
      StronglySorted (fun a b => Domain_lt a b = true)
        (forbidden_domains_ checker) /\
      (forall i j a b,
         i <> j ->
         nth_error (forbidden_domains_ checker) i = Some a ->
         nth_error (forbidden_domains_ checker) j = Some b ->
         IsSubdomain a b = false) /\
      (forall p, In p (forbidden_domains_ checker) -> In p domains) /\
      (forall d, In d domains ->
         exists p, In p (forbidden_domains_ checker) /\ IsSubdomain d p = true) /\
      (forall query, exists b, IsForbidden query checker = Some (b, checker)) /\
      (forall queries, exists out, query_loop queries checker = Some (out, checker)).
Proof.
  intros domains. exists (mkChecker (prepared domains)).
  pose proof (prepared_apart domains) as S.
  split; [apply DomainChecker_new_prepared|]. simpl.
  split; [|split; [|split; [|split; [|split]]]].
  - clear -S. induction S as [|x t St IH Hx]; constructor; [exact IH|].
    eapply Forall_impl; [|exact Hx]. now intros e [He _].
  - intros i j a b Hij Ha Hb.
    destruct (Nat.lt_total i j) as [H|[H|H]]; [| lia |].
    + apply apart_not_sub_l. eapply sorted_nth; eauto.
    + eapply (sorted_nth _ _ S j i b a H Hb Ha).
  - apply prepared_incl.
  - apply prepared_cover.
  - intros query. eexists. apply IsForbidden_prepared.
  - intros queries. eexists. now apply query_loop_sorted.
Qed.

(** C3. [Domain(a).IsSubdomain(Domain(b))] is true exactly when [a]
    equals [b] or [a] ends with the suffix made of a dot and [b] (stated
    once as a decomposition of [a] and once with [ends_with]).  Hence every
    domain is a subdomain of itself; [a.p] is a subdomain of [p] for every
    [a] and [p]; a single character put in front of [p] without a dot gives
    a subdomain only when that character is itself the dot, so that [xp] is
    not a subdomain of [p]. *)
Theorem IsSubdomain_suffix_law :
  (forall a b : string,
     IsSubdomain (Domain_new a) (Domain_new b) = true <->
     a = b \/ exists x : string, a = (x ++ "." ++ b)%string) /\
  (forall a b : string,
     IsSubdomain (Domain_new a) (Domain_new b) = true <->
     a = b \/ Std.ends_with (chars a) (chars ("." ++ b)%string) = true) /\
  (forall d : Domain, IsSubdomain d d = true) /\
  (forall a p : string,
     IsSubdomain (Domain_new (a ++ "." ++ p)%string) (Domain_new p) = true) /\
  (forall (x : ascii) (p : string),
     IsSubdomain (Domain_new (String x p)) (Domain_new p) = Ascii.eqb x ".") /\
  IsSubdomain (Domain_new "xp") (Domain_new "p") = false.
Proof.
  split; [|split; [|split; [|split; [|split]]]].
  - intros a b. apply (IsSubdomain_names (Domain_new a) (Domain_new b)).
  - intros a b. rewrite (IsSubdomain_names (Domain_new a) (Domain_new b)).
    unfold subdomain_of. simpl. rewrite ends_with_spec.
    split; (intros [E|[x E]]; [now left|right]).
    + exists (chars x). rewrite E. now rewrite !chars_append.
    + exists (string_of_list_ascii x). apply chars_inj.
      rewrite E, !chars_append. now rewrite chars_of_list.
  - apply IsSubdomain_refl.
  - intros a p. apply (IsSubdomain_names (Domain_new _) (Domain_new p)).
    right. now exists a.
  - intros x p. destruct (Ascii.eqb_spec x ".") as [->|Hx].
    + apply (IsSubdomain_names (Domain_new _) (Domain_new p)).
      right. now exists ""%string.
    + destruct (IsSubdomain _ _) eqn:E; [|reflexivity].
      apply IsSubdomain_chars in E. simpl in E.
      destruct E as [E|[y E]].
      * apply (f_equal (@length _)) in E. simpl in E. lia.
      * destruct y as [|y0 y]; simpl in E.
        -- injection E as E. contradiction.
        -- injection E as _ E. apply (f_equal (@length _)) in E.
           rewrite length_app in E. simpl in E. lia.
  - reflexivity.
Qed.

(** C4. Whenever [D] is a subdomain of [P], [P] sorts less than or equal
    to [D]: [D < P] is false, and [P < D] holds unless the two are equal. *)
Theorem superdomain_sorts_first (D P : Domain) :
  IsSubdomain D P = true ->
  Domain_lt D P = false /\ (Domain_lt P D = true \/ P = D).
Proof.
  intros H. apply IsSubdomain_le in H.
  split; [exact H|]. now apply Domain_le_cases.
Qed.

Lemma superdomain_sorts_first_witness :
  IsSubdomain (Domain_new "m.gdz.ru") (Domain_new "gdz.ru") = true /\
  Domain_lt (Domain_new "m.gdz.ru") (Domain_new "gdz.ru") = false /\
  (Domain_lt (Domain_new "gdz.ru") (Domain_new "m.gdz.ru") = true \/
   Domain_new "gdz.ru" = Domain_new "m.gdz.ru").
Proof.
  split; [reflexivity|].
  apply (superdomain_sorts_first (Domain_new "m.gdz.ru") (Domain_new "gdz.ru")).
  reflexivity.
Defined.

(** C5, as stated, fails: [operator<] compares the names from their last
    character, and the last character of "gdz.ru" is above the one of
    "gdz.ua", hence "gdz.ru" is not below "gdz.ua". *)
Lemma order_chain_counterexample :
  ~ (Domain_lt (Domain_new "gdz.ru") (Domain_new "gdz.ua") = true /\
     Domain_lt (Domain_new "gdz.ua") (Domain_new "maps.com") = true).
Proof. intros [H _]. vm_compute in H. discriminate. Qed.

(** C5, amended. For [operator<] the three names are in the order
    "gdz.ua", "maps.com", "gdz.ru": "gdz.ua" is below "maps.com", which is
    below "gdz.ru", and "gdz.ru" is not below "gdz.ua". *)
Theorem order_chain_example :
  Domain_lt (Domain_new "gdz.ua") (Domain_new "maps.com") = true /\
  Domain_lt (Domain_new "maps.com") (Domain_new "gdz.ru") = true /\
  Domain_lt (Domain_new "gdz.ua") (Domain_new "gdz.ru") = true /\
  Domain_lt (Domain_new "gdz.ru") (Domain_new "gdz.ua") = false.
Proof. repeat split; reflexivity. Qed.

(** Entries that are subdomains of entries already listed change no
    answer, wherever they are put. *)
Lemma covered_redundant q l l' :
  (forall x, In x l -> In x l') ->
  (forall e, In e l' -> exists p, In p l /\ IsSubdomain e p = true) ->
  covered q l' = covered q l.
Proof.
  intros H1 H2. destruct (covered q l) eqn:E.
  - rewrite covered_true in *. destruct E as [p [Hp Hs]].
    exists p. split; [now apply H1|exact Hs].
  - destruct (covered q l') eqn:F; [|reflexivity].
    rewrite <- E. symmetry. revert F. now apply covered_mono.
Qed.

(** C6. Entries that are subdomains or duplicates of listed entries do not
    change the behaviour of the checker: if [l'] contains the entries of
    [l] and otherwise only subdomains of entries of [l], the checkers
    built from [l'] and from [l] give the same answer to every query.  The
    checker built from [d, d, d] is the one built from [d], the checker
    built from "com" and "gdz.com" is the one built from "com", and in
    both cases every query gets the same answer. *)
Theorem redundant_entries_ignored :
  (forall (l l' : list Domain) (query : Domain),
     (forall x, In x l -> In x l') ->
     (forall e, In e l' -> exists p, In p l /\ IsSubdomain e p = true) ->
     exists b, answer l' query = Some b /\ answer l query = Some b) /\
  (forall d query : Domain,
     exists b, answer [d; d; d] query = Some b /\ answer [d] query = Some b) /\
  (forall d : Domain, DomainChecker_new [d; d; d] = DomainChecker_new [d]) /\
  (forall query : Domain,
     exists b, answer (names ["com"; "gdz.com"]%string) query = Some b /\
               answer (names ["com"]%string) query = Some b) /\
  DomainChecker_new (names ["com"; "gdz.com"]%string) =
  DomainChecker_new (names ["com"]%string).
Proof.
  split; [|split; [|split; [|split]]].
  - intros l l' query H1 H2. exists (covered query l).
    rewrite !answer_covered. split; [|reflexivity].
    f_equal. now apply covered_redundant.
  - intros d query. exists (covered query [d]).
    rewrite !answer_covered. split; [|reflexivity].
    f_equal. unfold covered. simpl.
    now destruct (IsSubdomain query d).
  - intros d. rewrite !DomainChecker_new_prepared. do 2 f_equal.
    unfold prepared. simpl. rewrite Domain_lt_irrefl. simpl.
    rewrite Domain_lt_irrefl. simpl.
    unfold redundant. now rewrite IsSubdomain_refl.
  - intros query. exists (covered query (names ["com"]%string)).
    rewrite !answer_covered. split; [|reflexivity].
    f_equal. apply covered_redundant.
    + intros x [<-|[]]. now left.
    + intros e [<-|[<-|[]]]; exists (Domain_new "com");
        (split; [now left|reflexivity]).
  - reflexivity.
Qed.

Lemma redundant_entries_ignored_witness :
  exists b,
    answer (names ["m.gdz.ru"; "com"; "gdz.ru"; "com"; "gdz.com"]%string)
           (Domain_new "maps.com") = Some b /\
    answer (names ["com"; "gdz.ru"]%string) (Domain_new "maps.com") = Some b.
Proof.
  apply (proj1 redundant_entries_ignored).
  - simpl. intros x [<-|[<-|[]]]; auto.
  - simpl. intros e [<-|[<-|[<-|[<-|[<-|[]]]]]].
    + exists (Domain_new "gdz.ru"). split; [auto|reflexivity].
    + exists (Domain_new "com"). split; [auto|reflexivity].
    + exists (Domain_new "gdz.ru"). split; [auto|reflexivity].
    + exists (Domain_new "com"). split; [auto|reflexivity].
    + exists (Domain_new "com"). split; [auto|reflexivity].
Defined.

(** C7. With the block-list "gdz.ru", "maps.me", "m.gdz.ru", "com", the
    queries "gdz.ru", "gdz.com", "m.maps.me", "alg.m.gdz.ru", "maps.com",
    "maps.ru", "gdz.ua" get, in this order, the answers true five times and
    then false twice, and [main] writes Bad five times and then Good
    twice. *)
Theorem end_to_end_scenario :
  map (answer (names ["gdz.ru"; "maps.me"; "m.gdz.ru"; "com"]%string))
      (names ["gdz.ru"; "gdz.com"; "m.maps.me"; "alg.m.gdz.ru";
              "maps.com"; "maps.ru"; "gdz.ua"]%string) =
  [Some true; Some true; Some true; Some true; Some true;
   Some false; Some false] /\
  main ["gdz.ru"; "maps.me"; "m.gdz.ru"; "com"]%string
       ["gdz.ru"; "gdz.com"; "m.maps.me"; "alg.m.gdz.ru";
        "maps.com"; "maps.ru"; "gdz.ua"]%string =
  Some ["Bad"; "Bad"; "Bad"; "Bad"; "Bad"; "Good"; "Good"]%string.
Proof. split; vm_compute; reflexivity. Qed.

(** The binary search of [IsForbidden] ends inside the prepared vector. *)
Lemma upper_bound_prepared domains query :
  exists idx,
    Std.upper_bound Domain_lt (prepared domains) query = Some idx /\
    idx <= length (prepared domains).
Proof.
  destruct (sorted_partition query _
              (apart_sorted_le _ (prepared_apart domains)))
    as [l1 [l2 [E [H1 H2]]]].
  exists (length l1). rewrite E. split.
  - now apply upper_bound_spec.
  - rewrite length_app. lia.
Qed.

(** C8. The operations are total.  [Domain] is built from any string, the
    empty one included; a checker is built from any sequence, the empty one
    included; on a checker so built, for any query, the binary search of
    [IsForbidden] ends on a position of the vector, the element read before
    a position other than the first exists, and [IsForbidden] returns a
    boolean; [main] returns one line for each query. *)
Theorem operations_total :
  (forall s : string, exists d, Domain_new s = d /\ domain_name_ d = s) /\
  Domain_new "" = mkDomain "" /\
  (forall domains : list Domain,
     exists checker, DomainChecker_new domains = Some checker) /\
  DomainChecker_new [] = Some (mkChecker []) /\
  (forall (domains : list Domain) (query : Domain),
     exists checker idx b,
       DomainChecker_new domains = Some checker /\
       Std.upper_bound Domain_lt (forbidden_domains_ checker) query = Some idx /\
       idx <= length (forbidden_domains_ checker) /\
       (idx = 0 \/
        exists candidate,
          nth_error (forbidden_domains_ checker) (idx - 1) = Some candidate) /\
       IsForbidden query checker = Some (b, checker)) /\
  (forall forbidden_names test_names : list string,
     exists out, main forbidden_names test_names = Some out /\
                 length out = length test_names).
Proof.
  split; [|split; [|split; [|split; [|split]]]].
  - intros s. now exists (Domain_new s).
  - reflexivity.
  - intros domains. eexists. apply DomainChecker_new_prepared.
  - reflexivity.
  - intros domains query.
    destruct (upper_bound_prepared domains query) as [idx [Hidx Hlen]].
    exists (mkChecker (prepared domains)), idx, (covered query domains).
    simpl. repeat split; auto using DomainChecker_new_prepared, IsForbidden_prepared.
    destruct idx as [|idx]; [now left|right].
    destruct (nth_error (prepared domains) (S idx - 1)) as [cand|] eqn:E.
    + now exists cand.
    + apply nth_error_None in E. lia.
  - intros fs ts. eexists. split; [apply main_covered|].
    now rewrite length_map.
Qed.

(** C9. The output of [main] depends on the queries in their order and on
    the set of block-list entries only: two block-lists with the same
    entries (in any order, with any repetitions) give the same output and
    the same answer to every query, the output has one token for each
    query, and the i-th token is the one of the answer to the i-th
    query. *)
Theorem output_follows_queries
    (forbidden_names forbidden_names' test_names : list string) :
  (forall x, In x forbidden_names <-> In x forbidden_names') ->
  exists out,
    main forbidden_names test_names = Some out /\
    main forbidden_names' test_names = Some out /\
    length out = length test_names /\
    (forall i t, nth_error test_names i = Some t ->
       exists b, answer (names forbidden_names) (Domain_new t) = Some b /\
                 nth_error out i = Some (token b)) /\
    (forall i, nth_error test_names i = None -> nth_error out i = None) /\
    (forall query,
       exists b, answer (names forbidden_names) query = Some b /\
                 answer (names forbidden_names') query = Some b).
Proof.
  intros H.
  assert (Hn : forall x, In x (names forbidden_names) <->
                         In x (names forbidden_names')).
  { intros x. unfold names. rewrite !in_map_iff.
    split; intros [s [E Hs]]; exists s; (split; [exact E|now apply H]). }
  exists (map (fun t => token (covered (Domain_new t) (names forbidden_names)))
              test_names).
  split; [apply main_covered|].
  split; [rewrite main_covered; f_equal; apply map_ext; intros t;
          now rewrite (covered_same_entries _ _ _ Hn)|].
  split; [apply length_map|].
  split; [|split].
  - intros i t Hi. eexists. split; [apply answer_covered|].
    rewrite nth_error_map, Hi. reflexivity.
  - intros i Hi. now rewrite nth_error_map, Hi.
  - intros query. eexists. split; [apply answer_covered|].
    rewrite answer_covered. f_equal. symmetry.
    now apply covered_same_entries.
Qed.

Lemma output_follows_queries_witness :
  exists out,
    main ["com"; "gdz.ru"]%string ["maps.com"; "gdz.ua"; "m.gdz.ru"]%string
      = Some out /\
    main ["gdz.ru"; "com"; "gdz.ru"; "com"]%string
         ["maps.com"; "gdz.ua"; "m.gdz.ru"]%string = Some out /\
    length out = 3.
Proof.
  destruct (output_follows_queries
              ["com"; "gdz.ru"]%string
              ["gdz.ru"; "com"; "gdz.ru"; "com"]%string
              ["maps.com"; "gdz.ua"; "m.gdz.ru"]%string)
    as [out [H1 [H2 [H3 _]]]].
  - intros x. simpl. tauto.
  - exists out. auto.
Defined.

Lemma IsSubdomain_empty_name q :
  IsSubdomain q (Domain_new "") = true <->
  domain_name_ q = ""%string \/
  exists x : string, domain_name_ q = (x ++ ".")%string.
Proof. apply (IsSubdomain_names q (Domain_new "")). Qed.

Lemma covered_app q l1 l2 : covered q (l1 ++ l2) = covered q l1 || covered q l2.
Proof. apply existsb_app. Qed.

Lemma ends_with_dot (s : string) :
  Std.ends_with (chars s) [dot] = true <-> exists x : string, s = (x ++ ".")%string.
Proof.
  rewrite ends_with_spec. split; intros [x E].
  - exists (string_of_list_ascii x). apply chars_inj.
    now rewrite E, chars_append, chars_of_list.
  - exists (chars x). now rewrite E, chars_append.
Qed.

(** C10. An entry with the empty name does not forbid every query: a
    domain is a subdomain of the domain with the empty name exactly when
    its own name is empty or ends with a dot.  Hence, for a query with a
    nonempty name that does not end with a dot: the block-list made of the
    empty name alone reports it as not forbidden; putting the empty name
    anywhere in a block-list changes nothing to the answer; and a
    block-list reports it as not forbidden whenever none of its entries
    with another name has the query as a subdomain. *)
Theorem empty_name_entry :
  (forall q : Domain,
     IsSubdomain q (Domain_new "") = true <->
     domain_name_ q = ""%string \/
     exists x : string, domain_name_ q = (x ++ ".")%string) /\
  (forall (l1 l2 : list Domain) (q : Domain),
     domain_name_ q <> ""%string ->
     Std.ends_with (chars (domain_name_ q)) [dot] = false ->
     (forall x : string, domain_name_ q <> (x ++ ".")%string) /\
     answer [Domain_new ""] q = Some false /\
     (exists b, answer (l1 ++ Domain_new "" :: l2) q = Some b /\
                answer (l1 ++ l2) q = Some b) /\
     ((forall p, In p (l1 ++ l2) -> IsSubdomain q p = false) ->
      answer (l1 ++ Domain_new "" :: l2) q = Some false)).
Proof.
  split; [exact IsSubdomain_empty_name|].
  intros l1 l2 q Hne Hdot.
  assert (Hx : forall x : string, domain_name_ q <> (x ++ ".")%string).
  { intros x F. assert (G : Std.ends_with (chars (domain_name_ q)) [dot] = true)
      by (apply ends_with_dot; now exists x).
    congruence. }
  assert (E : IsSubdomain q (Domain_new "") = false).
  { destruct (IsSubdomain q (Domain_new "")) eqn:F; [|reflexivity].
    apply IsSubdomain_empty_name in F. destruct F as [F|[x F]].
    - contradiction.
    - now apply Hx in F. }
  assert (C : covered q (l1 ++ Domain_new "" :: l2) = covered q (l1 ++ l2)).
  { rewrite !covered_app. unfold covered at 2. simpl. now rewrite E. }
  rewrite !answer_covered. repeat split.
  - exact Hx.
  - unfold covered. simpl. now rewrite E.
  - exists (covered q (l1 ++ l2)). now rewrite C.
  - intros H. rewrite C. f_equal. now apply covered_false.
Qed.

Lemma empty_name_entry_witness :
  answer [Domain_new ""] (Domain_new "maps.ru") = Some false /\
  exists b,
    answer (names ["gdz.ru"]%string ++ Domain_new "" :: names ["com"]%string)
           (Domain_new "maps.ru") = Some b /\
    answer (names ["gdz.ru"]%string ++ names ["com"]%string)
           (Domain_new "maps.ru") = Some b.
Proof.
  destruct (proj2 empty_name_entry (names ["gdz.ru"]%string)
               (names ["com"]%string) (Domain_new "maps.ru"))
    as [_ [H1 [H2 _]]].
  - simpl. discriminate.
  - reflexivity.
  - split; [exact H1|exact H2].
Defined.

(** * Further properties of the code *)

(** ** [operator<] and [operator==] *)

Lemma Domain_eqb_eq a b : Domain_eqb a b = true <-> a = b.
Proof.
  unfold Domain_eqb. rewrite String.eqb_eq. split.
  - destruct a, b. simpl. now intros ->.
  - now intros ->.
Qed.

(** X1. [operator<] is a strict order, as [std::sort] and
    [std::upper_bound] require: no domain is below itself, of two domains
    at most one is below the other, and the relation is transitive. *)
Theorem operator_lt_strict_order :
  (forall a, Domain_lt a a = false) /\
  (forall a b, Domain_lt a b = true -> Domain_lt b a = false) /\
  (forall a b c,
     Domain_lt a b = true -> Domain_lt b c = true -> Domain_lt a c = true).
Proof.
  split; [exact Domain_lt_irrefl|].
  split; [exact Domain_lt_asym|exact Domain_lt_trans].
Qed.

(** X2. Two domains that [operator<] does not order are equal for
    [operator==]: for any two domains exactly one of [a < b], [a == b]
    and [b < a] holds. *)
Theorem operator_lt_trichotomy (a b : Domain) :
  (Domain_lt a b = true /\ Domain_eqb a b = false /\ Domain_lt b a = false) \/
  (Domain_lt a b = false /\ Domain_eqb a b = true /\ Domain_lt b a = false) \/
  (Domain_lt a b = false /\ Domain_eqb a b = false /\ Domain_lt b a = true).
Proof.
  assert (Hne : forall x y, Domain_lt x y = true -> Domain_eqb x y = false).
  { intros x y H. destruct (Domain_eqb x y) eqn:E; [|reflexivity].
    apply Domain_eqb_eq in E. subst y.
    now rewrite Domain_lt_irrefl in H. }
  destruct (Domain_lt a b) eqn:Hab.
  - left. rewrite (Domain_lt_asym _ _ Hab). auto.
  - destruct (Domain_lt b a) eqn:Hba.
    + right. right. repeat split.
      destruct (Domain_eqb a b) eqn:E; [|reflexivity].
      apply Domain_eqb_eq in E. subst b. now rewrite Hab in Hba.
    + right. left. repeat split. apply Domain_eqb_eq.
      now apply Domain_lt_total.
Qed.

Lemma lex_common_prefix r a b u v :
  a <> b -> lex (r ++ a :: u) (r ++ b :: v) = comp a b.
Proof.
  intros Hab. induction r as [|c r IH]; simpl.
  - rewrite lex_cons. destruct (comp a b) eqn:E; [reflexivity|].
    destruct (comp b a) eqn:F; [reflexivity|].
    exfalso. apply Hab. now apply comp_total.
  - rewrite lex_cons, comp_irrefl. exact IH.
Qed.

Lemma key_append x t :
  key (Domain_new (x ++ t)%string) = rev (chars t) ++ rev (chars x).
Proof. unfold key. simpl. now rewrite chars_append, rev_app_distr. Qed.

(** X3. Two names that end with the same characters [t], preceded by two
    different characters, are ordered by the comparator of [operator<] on
    those two characters, whatever comes before them. *)
Theorem last_difference_decides (x y t : string) (c1 c2 : ascii) :
  c1 <> c2 ->
  Domain_lt (Domain_new (x ++ String c1 t)%string)
            (Domain_new (y ++ String c2 t)%string) = comp c1 c2.
Proof.
  intros H. rewrite Domain_lt_key, !key_append.
  change (chars (String c1 t)) with (c1 :: chars t).
  change (chars (String c2 t)) with (c2 :: chars t).
  simpl. rewrite <- !app_assoc. simpl.
  now apply lex_common_prefix.
Qed.

Lemma last_difference_decides_witness :
  Domain_lt (Domain_new ("gdz" ++ String "." "com")%string)
            (Domain_new ("" ++ String "x" "com")%string) = comp "." "x".
Proof.
  apply (last_difference_decides "gdz" "" "com" "." "x").
  discriminate.
Defined.

(** X4. Every name that ends with a dot and [t] is below every name that
    ends with another character and [t]: the subdomains of [t] come before
    the other names that end with the characters of [t]. *)
Theorem subdomains_sort_before_lookalikes (x y t : string) (c : ascii) :
  c <> dot ->
  Domain_lt (Domain_new (x ++ "." ++ t)%string)
            (Domain_new (y ++ String c t)%string) = true.
Proof.
  intros H. change (x ++ "." ++ t)%string with (x ++ String dot t)%string.
  rewrite Domain_lt_key, !key_append.
  change (chars (String dot t)) with (dot :: chars t).
  change (chars (String c t)) with (c :: chars t).
  simpl. rewrite <- !app_assoc. simpl.
  rewrite lex_common_prefix by congruence.
  rewrite comp_dot_l. now destruct (Ascii.eqb_spec c dot).
Qed.

Lemma subdomains_sort_before_lookalikes_witness :
  Domain_lt (Domain_new ("zzz" ++ "." ++ "com")%string)
            (Domain_new ("a" ++ String "-" "com")%string) = true.
Proof.
  apply (subdomains_sort_before_lookalikes "zzz" "a" "com" "-").
  discriminate.
Defined.

(** X5. A name is strictly below every longer name that ends with it,
    dot or no dot: the shorter of two such names comes first. *)
Theorem proper_suffix_sorts_first (c : ascii) (x p : string) :
  Domain_lt (Domain_new p) (Domain_new (String c x ++ p)%string) = true /\
  Domain_lt (Domain_new (String c x ++ p)%string) (Domain_new p) = false.
Proof.
  assert (H : Domain_lt (Domain_new (String c x ++ p)%string) (Domain_new p)
              = false).
  { rewrite Domain_lt_key, key_append. apply lex_prefix. }
  split; [|exact H].
  destruct (Domain_le_cases _ _ H) as [L|E]; [exact L|].
  apply (f_equal (fun d => length (chars (domain_name_ d)))) in E.
  simpl in E. rewrite chars_append, length_app in E.
  change (chars (String c x)) with (c :: chars x) in E. simpl in E. lia.
Qed.

(** ** [IsSubdomain] *)

Lemma IsSubdomain_antisym a b :
  IsSubdomain a b = true -> IsSubdomain b a = true -> a = b.
Proof.
  intros H1 H2. apply IsSubdomain_le in H1, H2.
  now apply Domain_le_antisym.
Qed.

Lemma superdomains_comparable q p1 p2 :
  IsSubdomain q p1 = true -> IsSubdomain q p2 = true ->
  IsSubdomain p1 p2 = true \/ IsSubdomain p2 p1 = true.
Proof.
  intros H1 H2.
  destruct (Domain_lt p2 p1) eqn:E.
  - left. apply (IsSubdomain_convex q p2 p1 H2).
    + now apply Domain_lt_le.
    + now apply IsSubdomain_le.
  - right. apply (IsSubdomain_convex q p1 p2 H1).
    + exact E.
    + now apply IsSubdomain_le.
Qed.

(** X6. [IsSubdomain] is a partial order on domains: two domains that are
    subdomains of each other are equal, and a subdomain of a subdomain is
    a subdomain. *)
Theorem IsSubdomain_partial_order :
  (forall a b,
     IsSubdomain a b = true -> IsSubdomain b a = true -> a = b) /\
  (forall a b c,
     IsSubdomain a b = true -> IsSubdomain b c = true ->
     IsSubdomain a c = true).
Proof. split; [exact IsSubdomain_antisym|exact IsSubdomain_trans]. Qed.

(** X7. The subdomains of a domain [p] are an interval of the order of
    [operator<]: whatever sorts between [p] and one of its subdomains [q]
    (neither below [p] nor above [q]) is a subdomain of [p] too.  This is
    what lets [IsForbidden] look at a single element. *)
Theorem subdomains_form_interval (q p c : Domain) :
  IsSubdomain q p = true ->
  Domain_lt c p = false -> Domain_lt q c = false ->
  IsSubdomain c p = true.
Proof. apply IsSubdomain_convex. Qed.

Lemma subdomains_form_interval_witness :
  IsSubdomain (Domain_new "maps.com") (Domain_new "com") = true.
Proof.
  apply (subdomains_form_interval
           (Domain_new "b.gdz.com") (Domain_new "com") (Domain_new "maps.com"));
    reflexivity.
Defined.

(** X8. The domains that a domain is a subdomain of form a chain: of two
    of them, one is a subdomain of the other. *)
Theorem superdomains_form_chain (q p1 p2 : Domain) :
  IsSubdomain q p1 = true -> IsSubdomain q p2 = true ->
  IsSubdomain p1 p2 = true \/ IsSubdomain p2 p1 = true.
Proof. apply superdomains_comparable. Qed.

Lemma superdomains_form_chain_witness :
  IsSubdomain (Domain_new "gdz.ru") (Domain_new "ru") = true \/
  IsSubdomain (Domain_new "ru") (Domain_new "gdz.ru") = true.
Proof.
  apply (superdomains_form_chain (Domain_new "m.gdz.ru")); reflexivity.
Defined.

(** ** The vector kept by the checker *)

Lemma sorted_In_cases {A} (R : A -> A -> Prop) l :
  StronglySorted R l ->
  forall a b, In a l -> In b l -> a = b \/ R a b \/ R b a.
Proof.
  induction 1 as [|x t St IH Hx]; intros a b Ha Hb; [easy|].
  rewrite Forall_forall in Hx.
  destruct Ha as [->|Ha], Hb as [->|Hb]; auto.
Qed.

Lemma prepared_antichain domains p r :
  In p (prepared domains) -> In r (prepared domains) ->
  IsSubdomain p r = true -> p = r.
Proof.
  intros Hp Hr H.
  destruct (sorted_In_cases _ _ (prepared_apart domains) p r Hp Hr)
    as [E|[F|[_ F]]]; [exact E| |congruence].
  apply apart_not_sub_l in F. congruence.
Qed.

Lemma apart_sorted_ext l1 : forall l2,
  StronglySorted apart l1 -> StronglySorted apart l2 ->
  (forall x, In x l1 <-> In x l2) -> l1 = l2.
Proof.
  induction l1 as [|x t IH]; intros [|y u] S1 S2 H; try reflexivity.
  - destruct (proj2 (H y)). now left.
  - destruct (proj1 (H x)). now left.
  - inversion S1 as [|? ? St Hx]; subst.
    inversion S2 as [|? ? Su Hy]; subst.
    rewrite Forall_forall in Hx, Hy.
    assert (E : x = y).
    { destruct (proj1 (H x) (or_introl eq_refl)) as [E|I1]; [now symmetry|].
      destruct (proj2 (H y) (or_introl eq_refl)) as [E|I2]; [exact E|].
      destruct (Hx y I2) as [L1 _], (Hy x I1) as [L2 _].
      apply Domain_lt_asym in L1. congruence. }
    subst y. f_equal. apply IH; auto.
    intros z. split; intros Hz.
    + destruct (proj1 (H z) (or_intror Hz)) as [E|I]; [|exact I].
      subst z. destruct (Hx x Hz) as [L _].
      now rewrite Domain_lt_irrefl in L.
    + destruct (proj2 (H z) (or_intror Hz)) as [E|I]; [|exact I].
      subst z. destruct (Hy x Hz) as [L _].
      now rewrite Domain_lt_irrefl in L.
Qed.

(** Two sequences that cover each other are prepared into the same
    vector. *)
Lemma prepared_canonical l l' :
  (forall x, In x l -> exists p, In p l' /\ IsSubdomain x p = true) ->
  (forall x, In x l' -> exists p, In p l /\ IsSubdomain x p = true) ->
  prepared l = prepared l'.
Proof.
  assert (half : forall l l',
    (forall x, In x l -> exists p, In p l' /\ IsSubdomain x p = true) ->
    (forall x, In x l' -> exists p, In p l /\ IsSubdomain x p = true) ->
    forall p, In p (prepared l) -> In p (prepared l')).
  { clear. intros l l' H1 H2 p Hp.
    destruct (H1 p (prepared_incl _ _ Hp)) as [p1 [Hp1 S1]].
    destruct (prepared_cover _ _ Hp1) as [p2 [Hp2 S2]].
    destruct (H2 p2 (prepared_incl _ _ Hp2)) as [p3 [Hp3 S3]].
    destruct (prepared_cover _ _ Hp3) as [p4 [Hp4 S4]].
    assert (Sp2 : IsSubdomain p p2 = true)
      by (eapply IsSubdomain_trans; eassumption).
    assert (S24 : IsSubdomain p2 p4 = true)
      by (eapply IsSubdomain_trans; eassumption).
    assert (E : p = p4).
    { apply (prepared_antichain l); auto.
      eapply IsSubdomain_trans; eassumption. }
    subst p4. now rewrite (IsSubdomain_antisym _ _ Sp2 S24). }
  intros H1 H2. apply apart_sorted_ext; auto using prepared_apart.
  intros x. split; apply half; auto.
Qed.

Lemma prepared_fixed l : StronglySorted apart l -> prepared l = l.
Proof.
  intros S. apply apart_sorted_ext; auto using prepared_apart.
  intros x. split; [apply prepared_incl|]. intros Hx.
  destruct (prepared_cover _ _ Hx) as [p [Hp Hs]].
  destruct (sorted_In_cases _ _ S x p Hx (prepared_incl _ _ Hp))
    as [E|[F|[_ F]]].
  - now subst p.
  - apply apart_not_sub_l in F. congruence.
  - congruence.
Qed.

Lemma prepared_minimal domains p :
  In p (prepared domains) <->
  In p domains /\
  forall r, In r domains -> IsSubdomain p r = true -> r = p.
Proof.
  split.
  - intros Hp. split; [now apply prepared_incl|].
    intros r Hr Hs.
    destruct (prepared_cover _ _ Hr) as [r' [Hr' Hs']].
    assert (E : p = r').
    { apply (prepared_antichain domains); auto.
      eapply IsSubdomain_trans; eassumption. }
    subst r'. now apply IsSubdomain_antisym.
  - intros [Hp Hmin].
    destruct (prepared_cover _ _ Hp) as [r [Hr Hs]].
    now rewrite <- (Hmin r (prepared_incl _ _ Hr) Hs).
Qed.

(** X9. The vector kept by the checker consists of the minimal entries of
    the input: a domain is kept exactly when it is in the input and is a
    subdomain of no other domain of the input. *)
Theorem forbidden_domains_are_minimal (domains : list Domain) :
  exists checker,
    DomainChecker_new domains = Some checker /\
    forall p,
      In p (forbidden_domains_ checker) <->
      In p domains /\
      forall r, In r domains -> IsSubdomain p r = true -> r = p.
Proof.
  exists (mkChecker (prepared domains)).
  split; [apply DomainChecker_new_prepared|].
  intros p. apply prepared_minimal.
Qed.

(** X10. The checker is a canonical form of the block-list: two inputs
    such that every entry of each is a subdomain of an entry of the other
    (in particular two inputs with the same entries, in any order and with
    any repetitions) give the same checker. *)
Theorem checker_canonical (l l' : list Domain) :
  (forall x, In x l -> exists p, In p l' /\ IsSubdomain x p = true) ->
  (forall x, In x l' -> exists p, In p l /\ IsSubdomain x p = true) ->
  exists checker,
    DomainChecker_new l = Some checker /\ DomainChecker_new l' = Some checker.
Proof.
  intros H1 H2. exists (mkChecker (prepared l)).
  rewrite !DomainChecker_new_prepared.
  now rewrite (prepared_canonical l l' H1 H2).
Qed.

Lemma checker_canonical_witness :
  exists checker,
    DomainChecker_new (names ["m.gdz.ru"; "com"; "gdz.ru"]%string)
      = Some checker /\
    DomainChecker_new (names ["gdz.ru"; "gdz.com"; "com"; "gdz.ru"]%string)
      = Some checker.
Proof.
  apply checker_canonical.
  - simpl. intros x [<-|[<-|[<-|[]]]].
    + exists (Domain_new "gdz.ru"). split; [auto|reflexivity].
    + exists (Domain_new "com"). split; [auto 6|reflexivity].
    + exists (Domain_new "gdz.ru"). split; [auto|reflexivity].
  - simpl. intros x [<-|[<-|[<-|[<-|[]]]]].
    + exists (Domain_new "gdz.ru"). split; [auto 6|reflexivity].
    + exists (Domain_new "com"). split; [auto 6|reflexivity].
    + exists (Domain_new "com"). split; [auto 6|reflexivity].
    + exists (Domain_new "gdz.ru"). split; [auto 6|reflexivity].
Defined.

(** X11. [PrepareForbiddenDomains] is idempotent: run a second time, it
    succeeds and leaves the object as the first run left it. *)
Theorem PrepareForbiddenDomains_idempotent (c : DomainChecker) :
  exists c',
    PrepareForbiddenDomains c = Some (tt, c') /\
    PrepareForbiddenDomains c' = Some (tt, c') /\
    (PrepareForbiddenDomains ;;; PrepareForbiddenDomains) c = Some (tt, c').
Proof.
  exists (mkChecker (prepared (forbidden_domains_ c))).
  assert (E : PrepareForbiddenDomains
                (mkChecker (prepared (forbidden_domains_ c))) =
              Some (tt, mkChecker (prepared (forbidden_domains_ c)))).
  { rewrite PrepareForbiddenDomains_run. simpl.
    now rewrite (prepared_fixed _ (prepared_apart _)). }
  split; [apply PrepareForbiddenDomains_run|]. split; [exact E|].
  unfold bind. rewrite PrepareForbiddenDomains_run. exact E.
Qed.

(** X12. An input that is already sorted, with no element a subdomain of
    another one, is stored as it is, and prints as it is; and only such an
    input is. *)
Theorem sorted_input_kept (domains : list Domain) :
  (DomainChecker_new domains = Some (mkChecker domains) <->
   StronglySorted apart domains) /\
  (StronglySorted apart domains ->
   forall out checker,
     DomainChecker_new domains = Some checker ->
     put_DomainChecker out checker = put_Domains out domains).
Proof.
  split; [split|].
  - rewrite DomainChecker_new_prepared. intros E.
    injection E as E. rewrite <- E. apply prepared_apart.
  - intros S. rewrite DomainChecker_new_prepared.
    now rewrite (prepared_fixed _ S).
  - intros S out checker. rewrite DomainChecker_new_prepared.
    intros E. injection E as <-. unfold put_DomainChecker. simpl.
    now rewrite (prepared_fixed _ S).
Qed.

(** ** Queries *)

(** X13. At most one element of the vector kept by the checker has a
    given query among its subdomains. *)
Theorem covering_entry_unique (domains : list Domain) :
  exists checker,
    DomainChecker_new domains = Some checker /\
    forall query p1 p2,
      In p1 (forbidden_domains_ checker) ->
      In p2 (forbidden_domains_ checker) ->
      IsSubdomain query p1 = true -> IsSubdomain query p2 = true ->
      p1 = p2.
Proof.
  exists (mkChecker (prepared domains)).
  split; [apply DomainChecker_new_prepared|]. simpl.
  intros query p1 p2 H1 H2 S1 S2.
  destruct (superdomains_comparable _ _ _ S1 S2) as [S|S].
  - now apply (prepared_antichain domains).
  - symmetry. now apply (prepared_antichain domains).
Qed.

(** X14. The binary search of [IsForbidden] finds the position that
    splits the vector of the checker: the elements before it are exactly
    the elements that are not above the query. *)
Theorem upper_bound_splits (domains : list Domain) (query : Domain) :
  exists checker idx,
    DomainChecker_new domains = Some checker /\
    Std.upper_bound Domain_lt (forbidden_domains_ checker) query = Some idx /\
    forall i e,
      nth_error (forbidden_domains_ checker) i = Some e ->
      (Domain_lt query e = false <-> i < idx).
Proof.
  destruct (sorted_partition query _
              (apart_sorted_le _ (prepared_apart domains)))
    as [l1 [l2 [E [H1 H2]]]].
  exists (mkChecker (prepared domains)), (length l1).
  split; [apply DomainChecker_new_prepared|]. simpl. rewrite E.
  split; [now apply upper_bound_spec|].
  rewrite Forall_forall in H1, H2.
  intros i e Hi. destruct (Nat.lt_ge_cases i (length l1)) as [L|L].
  - rewrite nth_error_app1 in Hi by exact L.
    split; [now intros _|intros _].
    apply H1. eapply nth_error_In; exact Hi.
  - rewrite nth_error_app2 in Hi by exact L.
    apply nth_error_In, H2 in Hi. split; [congruence|lia].
Qed.

(** X15. What is forbidden stays forbidden below: when a query is
    reported forbidden, so is every subdomain of it. *)
Theorem forbidden_downward_closed (domains : list Domain) (q q' : Domain) :
  answer domains q = Some true ->
  IsSubdomain q' q = true ->
  answer domains q' = Some true.
Proof.
  rewrite !answer_covered. intros H S. f_equal.
  injection H as H. rewrite covered_true in *.
  destruct H as [p [Hp Hs]]. exists p. split; [exact Hp|].
  eapply IsSubdomain_trans; eassumption.
Qed.

Lemma forbidden_downward_closed_witness :
  answer (names ["gdz.ru"; "com"]%string) (Domain_new "m.gdz.ru") = Some true /\
  answer (names ["gdz.ru"; "com"]%string) (Domain_new "alg.m.gdz.ru") = Some true.
Proof.
  split; [reflexivity|].
  apply (forbidden_downward_closed _ (Domain_new "m.gdz.ru")); reflexivity.
Defined.

(** X16. Every domain of the block-list is itself reported forbidden,
    also when the checker has dropped it as redundant. *)
Theorem listed_domain_forbidden (domains : list Domain) (d : Domain) :
  In d domains -> answer domains d = Some true.
Proof.
  intros H. rewrite answer_covered. f_equal. apply covered_true.
  exists d. split; [exact H|apply IsSubdomain_refl].
Qed.

Lemma listed_domain_forbidden_witness :
  answer (names ["com"; "gdz.com"]%string) (Domain_new "gdz.com") = Some true.
Proof.
  apply listed_domain_forbidden. simpl. auto.
Defined.

(** X17. A longer block-list forbids more: a query forbidden by a
    block-list is forbidden by every block-list that contains its
    entries. *)
Theorem forbidden_monotone (l l' : list Domain) (query : Domain) :
  (forall x, In x l -> In x l') ->
  answer l query = Some true -> answer l' query = Some true.
Proof.
  rewrite !answer_covered. intros H E. f_equal. injection E as E.
  rewrite covered_true in *. destruct E as [p [Hp Hs]].
  exists p. split; [now apply H|exact Hs].
Qed.

Lemma forbidden_monotone_witness :
  answer (names ["maps.me"; "com"; "gdz.ru"]%string) (Domain_new "gdz.com")
  = Some true.
Proof.
  apply (forbidden_monotone (names ["com"]%string)).
  - simpl. intros x [<-|[]]. auto.
  - reflexivity.
Defined.

(** X18. The checker built from two block-lists put together forbids what
    one of the two checkers forbids. *)
Theorem forbidden_union (l1 l2 : list Domain) (query : Domain) :
  exists b1 b2,
    answer l1 query = Some b1 /\ answer l2 query = Some b2 /\
    answer (l1 ++ l2) query = Some (b1 || b2).
Proof.
  exists (covered query l1), (covered query l2).
  rewrite !answer_covered. repeat split. f_equal. apply existsb_app.
Qed.

(** X19. [main] writes one line for each query, Bad or Good: Bad when the
    name of the query equals the name of an entry of the block-list or
    ends with a dot followed by it, Good otherwise. *)
Theorem main_output (forbidden_names test_names : list string) :
  exists out,
    main forbidden_names test_names = Some out /\
    Forall2
      (fun t line =>
         (line = "Bad"%string /\
          exists f, In f forbidden_names /\ subdomain_of t f) \/
         (line = "Good"%string /\
          forall f, In f forbidden_names -> ~ subdomain_of t f))
      test_names out.
Proof.
  eexists. split; [apply main_covered|].
  induction test_names as [|t ts IH]; simpl; constructor; [|exact IH].
  destruct (covered (Domain_new t) (names forbidden_names)) eqn:E.
  - left. split; [reflexivity|].
    apply covered_names in E. destruct E as [p [Hp Hs]].
    unfold names in Hp. apply in_map_iff in Hp.
    destruct Hp as [f [<- Hf]]. now exists f.
  - right. split; [reflexivity|].
    intros f Hf Hs. rewrite covered_false in E.
    assert (F : IsSubdomain (Domain_new t) (Domain_new f) = true)
      by now apply IsSubdomain_names.
    rewrite E in F; [discriminate|].
    unfold names. apply in_map_iff. now exists f.
Qed.

(** ** Reading and printing *)

Lemma read_line_newline line rest :
  ~ In newline line ->
  read_line (line ++ newline :: rest) = (line, Some rest).
Proof.
  induction line as [|c line IH]; simpl; intros H.
  - reflexivity.
  - destruct (Ascii.eqb_spec c newline) as [->|_]; [tauto|].
    rewrite IH by tauto. reflexivity.
Qed.


Lemma ReadDomains_loop_acc n : forall input acc,
  ReadDomains_loop input n acc =
  (fst (ReadDomains_loop input n []),
   acc ++ snd (ReadDomains_loop input n [])).
Proof.
  induction n as [|n IH]; intros input acc; simpl.
  - now rewrite app_nil_r.
  - destruct (getline input "") as [input' name].
    rewrite (IH input' (acc ++ _)), (IH input' [_]).
    simpl. now rewrite <- app_assoc.
Qed.




Lemma ReadDomains_loop_eq max input number :
  number <= max ->
  ReadDomains max input number = Some (ReadDomains_loop input number []).
Proof.
  intros H. unfold ReadDomains.
  destruct (Nat.ltb_spec max number); [lia|].
  now destruct number.
Qed.

Lemma chars_put_Domains domains : forall out,
  chars (put_Domains out domains) =
  chars out ++
  flat_map (fun d => chars (domain_name_ d) ++ [newline]) domains.
Proof.
  induction domains as [|d rest IH]; intros out; simpl.
  - now rewrite app_nil_r.
  - rewrite IH. unfold endl, put_Domain. rewrite !chars_append.
    simpl. now rewrite <- !app_assoc.
Qed.

Lemma ReadDomains_loop_printed domains : forall rest,
  Forall (fun d => ~ In newline (chars (domain_name_ d))) domains ->
  ReadDomains_loop
    (mkIstream
       (flat_map (fun d => chars (domain_name_ d) ++ [newline]) domains ++ rest)
       true)
    (length domains) [] =
  (mkIstream rest true, domains).
Proof.
  induction domains as [|d ds IH]; intros rest H; simpl; [reflexivity|].
  inversion H as [|? ? Hd Hds]; subst.
  unfold getline. simpl. rewrite <- !app_assoc. simpl.
  rewrite read_line_newline by exact Hd.
  rewrite ReadDomains_loop_acc, (IH rest Hds). simpl.
  unfold Domain_new. destruct d as [name]. simpl.
  unfold chars. now rewrite string_of_list_ascii_of_string.
Qed.


(** X21. Reading back what was printed: when no name holds a newline,
    [ReadDomains] applied to the output of [operator<<] on a vector of
    domains, for the size of that vector, returns the vector, and leaves a
    good stream on what followed in the input. *)
Theorem ReadDomains_put_Domains
    (max : nat) (domains : list Domain) (rest : list ascii) :
  Forall (fun d => ~ In newline (chars (domain_name_ d))) domains ->
  length domains <= max ->
  ReadDomains max
    (mkIstream (chars (put_Domains ""%string domains) ++ rest) true)
    (length domains) =
  Some (mkIstream rest true, domains) /\
  ReadDomains max (istringstream (put_Domains ""%string domains))
    (length domains) =
  Some (mkIstream [] true, domains).
Proof.
  intros H L. rewrite !(ReadDomains_loop_eq _ _ _ L).
  unfold istringstream. rewrite chars_put_Domains. simpl.
  split; f_equal.
  - now apply ReadDomains_loop_printed.
  - rewrite <- (app_nil_r (flat_map _ _)).
    now apply ReadDomains_loop_printed.
Qed.

Lemma ReadDomains_put_Domains_witness :
  ReadDomains 10
    (istringstream (put_Domains ""%string (names ["gdz.ru"; "com"]%string)))
    2 =
  Some (mkIstream [] true, names ["gdz.ru"; "com"]%string).
Proof.
  apply (ReadDomains_put_Domains 10 (names ["gdz.ru"; "com"]%string) []).
  - repeat constructor; simpl; intros H;
      repeat (destruct H as [H|H]; [discriminate H|]); exact H.
  - simpl. lia.
Defined.





(** The reading test of the source. *)
Example TestReadDomains :
  ReadDomains 100
    (istringstream
       (put_Domains ""%string
          (names ["gdz.ru"; "gdz.com"; "m.maps.me"; "alg.m.gdz.ru";
                  "maps.com"; "maps.ru"; "gdz.ua"]%string)))
    7 =
  Some (mkIstream [] true,
        names ["gdz.ru"; "gdz.com"; "m.maps.me"; "alg.m.gdz.ru";
               "maps.com"; "maps.ru"; "gdz.ua"]%string) /\
  ReadDomains 100 (mkIstream [] true) 0 = Some (mkIstream [] true, []).
Proof. split; reflexivity. Qed.

(** ** Edge cases of [IsSubdomain] and of the order *)

(** X24. The query with the empty name is a subdomain of the domain with
    the empty name only, hence it is reported forbidden exactly when the
    block-list holds the empty name. *)
Theorem empty_query (domains : list Domain) :
  (forall p, IsSubdomain (Domain_new "") p = true <-> p = Domain_new "") /\
  (answer domains (Domain_new "") = Some true <-> In (Domain_new "") domains).
Proof.
  assert (H : forall p, IsSubdomain (Domain_new "") p = true <->
                        p = Domain_new "").
  { intros p. rewrite IsSubdomain_chars. simpl. split.
    - intros [E|[x E]].
      + destruct p as [name]. simpl in E. unfold Domain_new. f_equal.
        apply (chars_inj name ""). symmetry. exact E.
      + now destruct x.
    - intros ->. now left. }
  split; [exact H|].
  rewrite answer_covered. split.
  - intros E. injection E as E. apply covered_true in E.
    destruct E as [p [Hp Hs]]. apply H in Hs. now subst p.
  - intros Hin. f_equal. apply covered_true.
    exists (Domain_new ""). split; [exact Hin|reflexivity].
Qed.

(** X25. The comparison of sizes in [IsSubdomain] never changes the
    result: the outcome is the one of [ends_with] alone. *)
Theorem IsSubdomain_size_test_redundant (d other : Domain) :
  IsSubdomain d other =
  Std.ends_with (dot :: chars (domain_name_ d))
                (dot :: chars (domain_name_ other)).
Proof.
  unfold IsSubdomain.
  destruct (Std.ends_with _ _) eqn:E; [|apply andb_false_r].
  rewrite andb_true_r. apply Nat.leb_le.
  apply ends_with_spec in E. destruct E as [p E].
  apply (f_equal (@length _)) in E. rewrite length_app in E.
  simpl in E. lia.
Qed.

(** X26. Sorting domains with [operator<] has one possible result: a
    sequence that is a permutation of the input and in which no element
    is above a later one is the sequence computed by [Std.sort], so that
    the vector of the checker does not depend on how [std::sort]
    proceeds. *)
Theorem sort_result_unique (l s : list Domain) :
  Permutation s l ->
  StronglySorted (fun a b => Domain_lt b a = false) s ->
  s = Std.sort Domain_lt l.
Proof. apply sort_unique. Qed.

Lemma sort_result_unique_witness :
  names ["com"; "com"; "gdz.ru"]%string =
  Std.sort Domain_lt (names ["com"; "gdz.ru"; "com"]%string).
Proof.
  apply sort_result_unique.
  - apply perm_skip. apply perm_swap.
  - repeat constructor.
Defined.
